(** * optimize_logo.py: a shallow embedding and its properties

    The script decodes [logo_original.png], re-encodes it as
    [logo_optimized.png], shrinks it at most twice while the encoded file is
    at least 1 MiB, and copies the result to a fixed destination.

    The development has four parts:
    - [Binary64]: the float arithmetic the script performs
      (int / int, float / int, int * float, int(), >=);
    - [Script]: the file system, the imaging calls and the script body in a
      state-and-exception monad that logs every external call;
    - [Scenario]: a small platform on which concrete runs are followed;
    - the properties of the size gate, of the resize targets and of runs. *)

From Stdlib Require Import ZArith Lia Bool List.
From stdpp Require Import base gmap strings list.

Local Open Scope Z_scope.

(** ** Python outcomes *)

(** The exceptions that can leave an expression of the script. *)
Inductive Exn : Type :=
  | DecodeError        (* Image.open: file missing or not an image *)
  | IOError            (* open for writing, stat, copy *)
  | ValueError         (* resize to a non-positive size; int(nan) *)
  | OverflowError      (* int too large for a float; int(inf) *)
  | ZeroDivisionError.

Inductive result (A : Type) : Type :=
  | Ok (a : A)
  | Raise (e : Exn).
Arguments Ok {A} a.
Arguments Raise {A} e.

Definition bind_result {A B : Type} (r : result A) (k : A -> result B) : result B :=
  match r with
  | Ok a => k a
  | Raise e => Raise e
  end.

Declare Scope result_scope.
Delimit Scope result_scope with result.
Notation "x <- r ;; k" := (bind_result r (fun x => k))
  (at level 100, r at next level, right associativity) : result_scope.

(** ** IEEE 754 binary64, as Python's [float] uses it *)

Module Binary64.

(** Every finite binary64 is an integer multiple of [2^emin]; a finite
    value is kept as mantissa and exponent, [Fin m e] standing for
    [m * 2^e] with [emin <= e]. The sign of zero is not tracked: no
    operation of the script observes it. *)
Definition emin : Z := -1074.
Definition emax : Z := 1024.
(** [1.0] counted in units of [2^emin]. *)
Definition scale : Z := 2 ^ 1074.

Inductive float : Type :=
  | Fin (m e : Z)
  | Inf (neg : bool)
  | NaN.

(** The value of [Fin m e] counted in units of [2^emin]. *)
Definition scaled (m e : Z) : Z := m * 2 ^ (e - emin).

(** Nearest integer to [a / b] for [0 < b], ties to the even one. *)
Definition rne (a b : Z) : Z :=
  let q := a / b in
  let r := a mod b in
  if 2 * r <? b then q
  else if b <? 2 * r then q + 1
  else if Z.even q then q else q + 1.

(** Rounding of the positive rational [a / b] to 53 significant bits:
    the exponent is that of the last kept bit, never below [emin]. *)
Definition round_pos (a b : Z) : Z * Z :=
  let e := Z.max (Z.log2 (a * scale / b) + emin - 52) emin in
  (rne (a * scale) (b * 2 ^ (e - emin)), e).

(** Rounding of [a / b], [0 < b], to the nearest binary64. *)
Definition round_ratio (a b : Z) : float :=
  if a =? 0 then Fin 0 0
  else
    let '(m, e) := round_pos (Z.abs a) b in
    if 2 ^ (emax - emin) <=? scaled m e then Inf (a <? 0)
    else Fin (Z.sgn a * m) e.

(** [float(a)] for a Python int. *)
Definition of_int (a : Z) : result float :=
  match round_ratio a 1 with
  | Inf _ => Raise OverflowError
  | x => Ok x
  end.

(** [a / b] for two Python ints: the correctly rounded quotient. *)
Definition int_truediv (a b : Z) : result float :=
  if b =? 0 then Raise ZeroDivisionError
  else
    match round_ratio (a * Z.sgn b) (Z.abs b) with
    | Inf _ => Raise OverflowError
    | x => Ok x
    end.

(** [x / y] for two floats. *)
Definition div (x y : float) : result float :=
  match x, y with
  | _, Fin 0 _ => Raise ZeroDivisionError
  | NaN, _ | _, NaN => Ok NaN
  | Inf _, Inf _ => Ok NaN
  | Inf s, Fin m _ => Ok (Inf (xorb s (m <? 0)))
  | Fin _ _, Inf _ => Ok (Fin 0 0)
  | Fin m1 e1, Fin m2 e2 =>
      Ok (round_ratio (scaled m1 e1 * Z.sgn m2) (Z.abs (scaled m2 e2)))
  end.

(** [x * y] for two floats. *)
Definition mul (x y : float) : float :=
  match x, y with
  | NaN, _ | _, NaN => NaN
  | Inf s, Inf t => Inf (xorb s t)
  | Inf s, Fin m _ | Fin m _, Inf s =>
      if m =? 0 then NaN else Inf (xorb s (m <? 0))
  | Fin m1 e1, Fin m2 e2 =>
      round_ratio (scaled m1 e1 * scaled m2 e2) (scale * scale)
  end.

(** [x >= y]. *)
Definition ge (x y : float) : bool :=
  match x, y with
  | NaN, _ | _, NaN => false
  | Inf s, Inf t => negb s || t
  | Inf s, Fin _ _ => negb s
  | Fin _ _, Inf t => t
  | Fin m1 e1, Fin m2 e2 => scaled m2 e2 <=? scaled m1 e1
  end.

(** [int(x)]: truncation toward zero. *)
Definition to_int (x : float) : result Z :=
  match x with
  | Fin m e => Ok (Z.quot (scaled m e) scale)
  | Inf _ => Raise OverflowError
  | NaN => Raise ValueError
  end.

(** [x / k] and [k * x] for a float and a Python int: the int is converted
    first. *)
Definition div_int (x : float) (k : Z) : result float :=
  (y <- of_int k ;; div x y)%result.

Definition int_mul (k : Z) (x : float) : result float :=
  (y <- of_int k ;; Ok (mul y x))%result.

(** A binary64 counted in units of [2^emin]: at most 53 significant bits. *)
Definition representable (j : Z) : Prop :=
  exists M t, 0 <= t /\ 0 <= M < 2 ^ 53 /\ j = M * 2 ^ t.

(** The largest finite binary64, [(2^53 - 1) * 2^971]. *)
Definition max_finite : Z := (2 ^ 53 - 1) * 2 ^ 971.

(** The literals of the script. *)
Definition lit_0_9 : float := round_ratio 9 10.
Definition lit_1_0 : float := Fin 1 0.

End Binary64.

(** ** The arithmetic of the script *)

(** [os.path.getsize(p) / 1024 / 1024] for a file of [n] bytes
    (lines 7, 13, 22, 30). *)
Definition mebibytes (n : Z) : result Binary64.float :=
  (k <- Binary64.int_truediv n 1024 ;; Binary64.div_int k 1024)%result.

(** [size >= 1.0] (lines 17, 26). *)
Definition too_large (size : Binary64.float) : bool :=
  Binary64.ge size Binary64.lit_1_0.

(** The size gate on a byte count: the quotient, then the comparison. *)
Definition size_gate (n : Z) : result bool :=
  (size <- mebibytes n ;; Ok (too_large size))%result.

(** [int(d * 0.9)] for an image dimension [d] (line 19). *)
Definition scale_90 (d : Z) : result Z :=
  (x <- Binary64.int_mul d Binary64.lit_0_9 ;; Binary64.to_int x)%result.

(** ** The script: file system, imaging calls, control flow *)

Module Script.

Abbreviation bytes := (list Byte.byte).
Abbreviation float := Binary64.float.

(** The byte count [os.path.getsize] reports for a file. *)
Definition size_of (bs : bytes) : Z := Z.of_nat (length bs).

(** A file whose size has a quotient in MiB (below the binary64 range),
    and one of at least 1 MiB. *)
Definition measurable (bs : bytes) : Prop := size_of bs < 2 ^ 1024.
Definition oversize (bs : bytes) : Prop := 1048576 <= size_of bs.

(** Pillow's in-memory image: dimensions, colour mode, pixel buffer. *)
Record Image : Type := {
  width : Z;
  height : Z;
  mode : string;
  pixels : bytes;
}.

(** What the script needs from outside: Pillow's PNG reader and writer,
    its Lanczos resampler, and which paths the process may write. *)
Record Platform : Type := {
  png_decode : bytes -> option Image;
  png_encode : Image -> bool -> Z -> bytes;   (* image, optimize, quality *)
  lanczos : Image -> Z * Z -> bytes;          (* resampled pixel buffer *)
  writable : string -> bool;
}.

(** The lines the script prints; the rendering of the numbers
    ([:.2f]) is not modelled. *)
Inductive Msg : Type :=
  | MsgOriginalSize (mb : float)
  | MsgOriginalDimensions (size : Z * Z)
  | MsgOriginalMode (m : string)
  | MsgOptimizedSize (mb : float)
  | MsgResized (new_size : Z * Z) (mb : float)
  | MsgSaved.

(** Every call that leaves the interpreter, logged when it is made. *)
Inductive Event : Type :=
  | Open (path : string)
  | Getsize (path : string)
  | Save (img : Image) (path : string) (optimize : bool) (quality : Z)
  | Resize (img : Image) (size : Z * Z)
  | Copy (src dst : string)
  | Print (m : Msg).

Record World : Type := {
  files : gmap string bytes;
  log : list Event;
}.

(** State and exceptions: a computation returns a value or raises, and
    hands on the world it reached either way. Nothing undoes an effect. *)
Definition M (A : Type) : Type := World -> result A * World.

Definition ret {A : Type} (a : A) : M A := fun w => (Ok a, w).

Definition bind {A B : Type} (m : M A) (k : A -> M B) : M B :=
  fun w =>
    match m w with
    | (Ok a, w') => k a w'
    | (Raise e, w') => (Raise e, w')
    end.

Definition raise {A : Type} (e : Exn) : M A := fun w => (Raise e, w).

Definition lift {A : Type} (r : result A) : M A := fun w => (r, w).

Definition emit (ev : Event) : M unit :=
  fun w => (Ok tt, {| files := files w; log := log w ++ [ev] |}).

Definition write (path : string) (bs : bytes) : M unit :=
  fun w => (Ok tt, {| files := <[path := bs]> (files w); log := log w |}).

Definition read (path : string) : M (option bytes) :=
  fun w => (Ok (files w !! path), w).

Declare Scope script_scope.
Delimit Scope script_scope with script.
Notation "x <- m ;; k" := (bind m (fun x => k))
  (at level 100, m at next level, right associativity) : script_scope.
Notation "m ;; k" := (bind m (fun _ => k))
  (at level 100, right associativity) : script_scope.
Local Open Scope script_scope.

Section Calls.
Context (P : Platform).

(** Modelled from the spec: the Loader of section 4.1, [Image.open] of
    Pillow, which is not part of the repository. It decodes the file at
    [path] and fails with a DecodeError when the path does not exist or
    the file is not a decodable image. (Pillow reads the pixels on first
    use; the model decodes at once, which no call of the script tells
    apart, the source file never being written.) *)
Definition Image_open (path : string) : M Image :=
  emit (Open path) ;;
  content <- read path ;;
  match content with
  | None => raise DecodeError
  | Some bs =>
      match png_decode P bs with
      | Some img => ret img
      | None => raise DecodeError
      end
  end.

(** [os.path.getsize(path)]: the byte count read back from disk. *)
Definition getsize (path : string) : M Z :=
  emit (Getsize path) ;;
  content <- read path ;;
  match content with
  | Some bs => ret (size_of bs)
  | None => raise IOError
  end.

(** Modelled from the spec: the Encoder of section 4.2,
    [img.save(path, 'PNG', optimize=..., quality=...)] of Pillow. It
    writes the compressed image to [path], overwriting any file there,
    and fails with an IOError on an unwritable destination. The bytes
    written are a function of the image and the two settings. *)
Definition save (img : Image) (path : string) (optimize : bool) (quality : Z)
  : M unit :=
  emit (Save img path optimize quality) ;;
  if writable P path then write path (png_encode P img optimize quality)
  else raise IOError.

(** Modelled from the spec: the image the Resizer of section 4.4 returns,
    with exactly the target dimensions and the mode of its input. *)
Definition resized (img : Image) (size : Z * Z) : Image :=
  {| width := fst size; height := snd size;
     mode := mode img; pixels := lanczos P img size |}.

(** Modelled from the spec: the Resizer of section 4.4,
    [img.resize(size, Image.Resampling.LANCZOS)] of Pillow. It returns a
    new image and leaves its input unchanged; its only error is a
    non-positive target dimension. *)
Definition resize (img : Image) (size : Z * Z) : M Image :=
  emit (Resize img size) ;;
  if (0 <? fst size) && (0 <? snd size) then ret (resized img size)
  else raise ValueError.

(** Modelled from the spec: the Publisher of section 4.5,
    [shutil.copy(src, dst)]. A byte-for-byte copy that overwrites the
    destination; it fails with an IOError when the source is missing,
    when source and destination are the same file, or when the
    destination cannot be written. *)
Definition copy (src dst : string) : M unit :=
  emit (Copy src dst) ;;
  content <- read src ;;
  match content with
  | None => raise IOError
  | Some bs =>
      if String.eqb src dst then raise IOError
      else if writable P dst then write dst bs
      else raise IOError
  end.

Definition print (m : Msg) : M unit := emit (Print m).

(** The three paths of the script. *)
Definition logo_original : string := "logo_original.png".
Definition logo_optimized : string := "logo_optimized.png".
Definition downloads : string := "/mnt/c/Users/bsamm/Downloads/logo_optimized.png".

(** Lines 6-14: open, report, first encode at quality 85. *)
Definition method1 : M (Image * float) :=
  img <- Image_open logo_original ;;
  n <- getsize logo_original ;;
  mb <- lift (mebibytes n) ;;
  print (MsgOriginalSize mb) ;;
  print (MsgOriginalDimensions (width img, height img)) ;;
  print (MsgOriginalMode (mode img)) ;;
  save img logo_optimized true 85 ;;
  n1 <- getsize logo_optimized ;;
  size1 <- lift (mebibytes n1) ;;
  print (MsgOptimizedSize size1) ;;
  ret (img, size1).

(** Lines 27-31: the fixed 800 x 800 resize, encoded at quality 80. The
    receiver of [resize] is [img], the image opened on line 6. *)
Definition method3 (img : Image) : M unit :=
  let new_size := (800, 800) in
  img_resized <- resize img new_size ;;
  save img_resized logo_optimized true 80 ;;
  n3 <- getsize logo_optimized ;;
  size3 <- lift (mebibytes n3) ;;
  print (MsgResized new_size size3).

(** Lines 19-26: the 90% resize, encoded at quality 85, and the second
    gate. *)
Definition method2 (img : Image) : M unit :=
  new_width <- lift (scale_90 (width img)) ;;
  new_height <- lift (scale_90 (height img)) ;;
  let new_size := (new_width, new_height) in
  img_resized <- resize img new_size ;;
  save img_resized logo_optimized true 85 ;;
  n2 <- getsize logo_optimized ;;
  size2 <- lift (mebibytes n2) ;;
  print (MsgResized new_size size2) ;;
  if too_large size2 then method3 img else ret tt.

(** Lines 34-36: the copy to the download folder. *)
Definition publish : M unit :=
  copy logo_optimized downloads ;;
  print MsgSaved.

(** The whole script. *)
Definition main : M unit :=
  first <- method1 ;;
  let '(img, size1) := first in
  (if too_large size1 then method2 img else ret tt) ;;
  publish.

(** A run from a file system, with nothing logged yet. *)
Definition run (fs : gmap string bytes) : result unit * World :=
  main {| files := fs; log := [] |}.



(** The exception a call raises in a file system, if it raises one. *)
Definition raised_by (fs : gmap string bytes) (ev : Event) : option Exn :=
  match ev with
  | Open path =>
      match fs !! path with
      | Some bs =>
        match png_decode P bs with
        | Some _ => None
        | None => Some DecodeError
        end
      | None => Some DecodeError
      end
  | Getsize path =>
    match fs !! path with
    | Some _ => None
    | None => Some IOError
    end
  | Save _ path _ _ => if writable P path then None else Some IOError
  | Resize _ size =>
      if (0 <? fst size) && (0 <? snd size) then None else Some ValueError
  | Copy src dst =>
      match fs !! src with
      | None => Some IOError
      | Some _ =>
          if String.eqb src dst then Some IOError
          else if writable P dst then None else Some IOError
      end
  | Print _ => None
  end.

End Calls.


(** Observations of a log. *)
Definition resize_calls (l : list Event) : list (Image * (Z * Z)) :=
  omap (fun ev => match ev with Resize img size => Some (img, size) | _ => None end) l.

Definition saved_images (l : list Event) : list (Image * Z) :=
  omap (fun ev => match ev with Save img _ _ q => Some (img, q) | _ => None end) l.

Definition written_paths (l : list Event) : list string :=
  omap (fun ev =>
          match ev with
          | Save _ path _ _ => Some path
          | Copy _ dst => Some dst
          | _ => None
          end) l.

(** The messages printed, the sizes among them, and the settings of the
    saves, in order. *)
Definition printed (l : list Event) : list Msg :=
  omap (fun ev => match ev with Print m => Some m | _ => None end) l.

Definition reported_sizes (l : list Event) : list float :=
  omap (fun ev =>
          match ev with
          | Print (MsgOptimizedSize mb) => Some mb
          | Print (MsgResized _ mb) => Some mb
          | _ => None
          end) l.

Definition save_settings (l : list Event) : list (string * bool * Z) :=
  omap (fun ev =>
          match ev with
          | Save _ path optimize quality => Some (path, optimize, quality)
          | _ => None
          end) l.

End Script.

(** ** Concrete scenarios

    A stand-in platform on which runs can be followed by hand: every
    non-empty file decodes to one given image, the encoder writes one zero
    byte per pixel, and the set of writable paths is a parameter. *)

Module Scenario.
Import Script.

Definition blank (w h : Z) : Image :=
  {| width := w; height := h; mode := "RGBA"; pixels := [] |}.

Definition platform (source : Image) (may_write : string -> bool) : Platform :=
  {| png_decode := fun bs => match bs with [] => None | _ => Some source end;
     png_encode := fun img _ _ => repeat Byte.x00 (Z.to_nat (width img * height img));
     lanczos := fun _ _ => [];
     writable := may_write |}.

Definition anywhere : string -> bool := fun _ => true.
Definition nowhere : string -> bool := fun _ => false.

(** A file system that holds the source logo only (its first four bytes). *)
Definition source_only : gmap string bytes :=
  {[ logo_original := [Byte.x89; Byte.x50; Byte.x4e; Byte.x47] ]}.

(** The same with a stale file already at the destination. *)
Definition with_stale_download : gmap string bytes :=
  <[ downloads := [Byte.x00] ]> source_only.

(** The images of the scenarios of the specification, and a one-pixel-wide
    strip. *)
Definition large : Image := blank 4000 3000.
Definition small : Image := blank 500 500.
Definition strip : Image := blank 1 2000000.

(** A logo that passes the gate after one resize, a 2 x 2 one, and a
    process that may write the working output only. *)
Definition medium : Image := blank 1100 1000.
Definition tiny : Image := blank 2 2.
Definition output_only : string -> bool := String.eqb logo_optimized.

End Scenario.

(** * Properties *)

(** ** Rounding *)

Module Binary64Facts.
Import Binary64.

Lemma scale_pos : 0 < scale.
Proof. unfold scale. apply Z.pow_pos_nonneg; lia. Qed.

(** [rne a b] is within one half of [a / b]. *)
Lemma rne_bounds a b :
  0 < b -> 2 * (rne a b * b) - b <= 2 * a <= 2 * (rne a b * b) + b.
Proof.
  intros Hb. unfold rne.
  pose proof (Z.div_mod a b ltac:(lia)) as Hdm.
  pose proof (Z.mod_pos_bound a b Hb) as Hr.
  destruct (2 * (a mod b) <? b) eqn:H1; [apply Z.ltb_lt in H1; nia|].
  apply Z.ltb_ge in H1.
  destruct (b <? 2 * (a mod b)) eqn:H2; [apply Z.ltb_lt in H2; nia|].
  apply Z.ltb_ge in H2.
  destruct (Z.even (a / b)); nia.
Qed.

(** Rounding never crosses an integer. *)
Lemma rne_ge a b k : 0 < b -> k * b <= a -> k <= rne a b.
Proof. intros Hb H. pose proof (rne_bounds a b Hb). nia. Qed.

Lemma rne_le a b k : 0 < b -> a <= k * b -> rne a b <= k.
Proof. intros Hb H. pose proof (rne_bounds a b Hb). nia. Qed.

Lemma rne_exact b k : 0 < b -> rne (k * b) b = k.
Proof.
  intros Hb. apply Z.le_antisymm; [apply rne_le | apply rne_ge]; lia.
Qed.

(** What [round_pos] returns: the exponent [e], counted from [emin] as
    [s], the half-scale error bound, and the size of the mantissa. *)
Lemma round_pos_spec a b m e :
  0 < a -> 0 < b -> round_pos a b = (m, e) ->
  let s := e - emin in
  let d := b * 2 ^ s in
  0 <= s /\
  m = rne (a * scale) d /\
  a * scale < 2 ^ 53 * d /\
  (s = 0 \/ 2 ^ 52 * d <= a * scale).
Proof.
  intros Ha Hb Hr s d. unfold round_pos in Hr.
  injection Hr as Hm He.
  pose proof scale_pos as Hu.
  set (N := a * scale) in *.
  assert (HN : 0 < N) by (unfold N; nia).
  set (L := Z.log2 (N / b)) in *.
  assert (Hs : s = Z.max (L - 52) 0) by (unfold s, emin in *; lia).
  assert (Hs0 : 0 <= s) by lia.
  assert (Hd : 0 < d) by (unfold d; pose proof (Z.pow_pos_nonneg 2 s); nia).
  assert (Hme : m = rne N d).
  { rewrite <- Hm. unfold d, s. rewrite <- He. reflexivity. }
  split; [exact Hs0|]. split; [exact Hme|].
  pose proof (Z.div_mod N b ltac:(lia)) as Hdm.
  pose proof (Z.mod_pos_bound N b Hb) as Hmod.
  assert (Hq0 : 0 <= N / b) by (apply Z.div_pos; lia).
  assert (HL0 : 0 <= L) by apply Z.log2_nonneg.
  (* N / b < 2^(L+1) in every case *)
  assert (Hup : N / b < 2 ^ (L + 1)).
  { destruct (Z.eq_dec (N / b) 0) as [E|E].
    - rewrite E. apply Z.pow_pos_nonneg; lia.
    - apply Z.log2_spec. lia. }
  assert (Hup' : N < 2 ^ (L + 1) * b) by nia.
  assert (Hpow : 2 ^ (L + 1) <= 2 ^ 53 * 2 ^ s).
  { rewrite <- Z.pow_add_r by lia. apply Z.pow_le_mono_r; lia. }
  split.
  - unfold d. pose proof (Z.pow_pos_nonneg 2 s ltac:(lia) Hs0). nia.
  - destruct (Z.eq_dec s 0) as [E|E]; [left; exact E|right].
    assert (HsL : s = L - 52) by lia.
    assert (HqL : 2 ^ L <= N / b).
    { apply Z.log2_spec. destruct (Z.eq_dec (N / b) 0) as [E0|E0]; [|lia].
      exfalso. unfold L in HsL. rewrite E0 in HsL. simpl in HsL. lia. }
    assert (HLp : 2 ^ L = 2 ^ 52 * 2 ^ s).
    { rewrite <- Z.pow_add_r by lia. f_equal. lia. }
    unfold d. nia.
Qed.

(** Rounding is monotone against every representable value. *)
Lemma round_pos_ge a b m e j :
  0 < a -> 0 < b -> round_pos a b = (m, e) ->
  representable j -> j * b <= a * scale -> j <= scaled m e.
Proof.
  intros Ha Hb Hr (M & t & Ht & HM & ->) Hle.
  destruct (round_pos_spec a b m e Ha Hb Hr) as (Hs & Hrn & _ & Hnorm).
  unfold scaled. set (s := e - emin) in *.
  pose proof (Z.pow_pos_nonneg 2 s ltac:(lia) Hs) as Hp.
  destruct (Z_le_gt_dec s t) as [Hst|Hst].
  - assert (Ht' : 2 ^ t = 2 ^ (t - s) * 2 ^ s).
    { rewrite <- Z.pow_add_r by lia. f_equal. lia. }
    rewrite Ht' in *.
    pose proof (Z.pow_pos_nonneg 2 (t - s) ltac:(lia) ltac:(lia)) as Hq.
    assert (M * 2 ^ (t - s) <= m); [|nia].
    assert (Hd : 0 < b * 2 ^ s) by nia.
    rewrite Hrn. apply rne_ge; [exact Hd|]. nia.
  - destruct Hnorm as [E|Hn]; [lia|].
    assert (H52 : 2 ^ 52 <= m).
    { assert (Hd : 0 < b * 2 ^ s) by nia.
      rewrite Hrn. apply rne_ge; [exact Hd|]. exact Hn. }
    assert (Hts : 2 ^ t * 2 <= 2 ^ s).
    { replace (2 ^ t * 2) with (2 ^ (t + 1)) by (rewrite Z.pow_add_r by lia; lia).
      apply Z.pow_le_mono_r; lia. }
    pose proof (Z.pow_pos_nonneg 2 t ltac:(lia) Ht) as Hq.
    assert (M * 2 ^ t <= 2 ^ 52 * 2 ^ s) by nia.
    nia.
Qed.

Lemma round_pos_le a b m e j :
  0 < a -> 0 < b -> round_pos a b = (m, e) ->
  representable j -> a * scale <= j * b -> scaled m e <= j.
Proof.
  intros Ha Hb Hr (M & t & Ht & HM & ->) Hle.
  destruct (round_pos_spec a b m e Ha Hb Hr) as (Hs & Hrn & _ & Hnorm).
  unfold scaled. set (s := e - emin) in *.
  pose proof (Z.pow_pos_nonneg 2 s ltac:(lia) Hs) as Hp.
  pose proof (Z.pow_pos_nonneg 2 t ltac:(lia) Ht) as Hq.
  destruct (Z_le_gt_dec s t) as [Hst|Hst].
  - assert (Ht' : 2 ^ t = 2 ^ (t - s) * 2 ^ s).
    { rewrite <- Z.pow_add_r by lia. f_equal. lia. }
    rewrite Ht' in *.
    pose proof (Z.pow_pos_nonneg 2 (t - s) ltac:(lia) ltac:(lia)) as Hq'.
    assert (m <= M * 2 ^ (t - s)); [|nia].
    assert (Hd : 0 < b * 2 ^ s) by nia.
    rewrite Hrn. apply rne_le; [exact Hd|]. nia.
  - exfalso. destruct Hnorm as [E|Hn]; [lia|].
    assert (Hts : 2 ^ t * 2 <= 2 ^ s).
    { replace (2 ^ t * 2) with (2 ^ (t + 1)) by (rewrite Z.pow_add_r by lia; lia).
      apply Z.pow_le_mono_r; lia. }
    assert (M * 2 ^ t * b < 2 ^ 52 * (b * 2 ^ s)); [|lia].
    assert (H1 : M * 2 ^ t < 2 ^ 53 * 2 ^ t) by (apply Z.mul_lt_mono_pos_r; lia).
    assert (H2 : 2 ^ 53 * 2 ^ t <= 2 ^ 52 * 2 ^ s) by lia.
    assert (H3 : M * 2 ^ t < 2 ^ 52 * 2 ^ s) by lia.
    replace (2 ^ 52 * (b * 2 ^ s)) with (2 ^ 52 * 2 ^ s * b) by ring.
    apply Z.mul_lt_mono_pos_r; lia.
Qed.

Lemma round_pos_exact a b m e j :
  0 < a -> 0 < b -> round_pos a b = (m, e) ->
  representable j -> a * scale = j * b -> scaled m e = j.
Proof.
  intros Ha Hb Hr Hj E. apply Z.le_antisymm.
  - apply (round_pos_le a b); auto. lia.
  - apply (round_pos_ge a b); auto. lia.
Qed.
End Binary64Facts.

Section GateFacts.
Import Binary64 Binary64Facts.

(** A positive quotient below the largest binary64 rounds to a finite
    float. *)
Lemma round_ratio_finite a b :
  0 < a -> 0 < b -> a <= max_finite * b ->
  exists m e, round_pos a b = (m, e) /\ round_ratio a b = Fin m e.
Proof.
  intros Ha Hb Hmax.
  destruct (round_pos a b) as [m e] eqn:Hr. exists m, e. split; [reflexivity|].
  unfold round_ratio.
  destruct (Z.eqb_spec a 0) as [E|_]; [lia|].
  rewrite Z.abs_eq by lia. rewrite Hr.
  assert (Hle : scaled m e <= (2 ^ 53 - 1) * 2 ^ 2045).
  { apply (round_pos_le a b m e); auto.
    - exists (2 ^ 53 - 1), 2045. lia.
    - replace ((2 ^ 53 - 1) * 2 ^ 2045) with (max_finite * scale)
        by (unfold max_finite, scale; rewrite <- Z.mul_assoc, <- Z.pow_add_r by lia; reflexivity).
      pose proof scale_pos. nia. }
  destruct (Z.leb_spec (2 ^ (emax - emin)) (scaled m e)) as [H|H].
  - exfalso. change (emax - emin) with 2098 in H.
    assert ((2 ^ 53 - 1) * 2 ^ 2045 < 2 ^ 2098); [|lia].
    replace (2 ^ 2098) with (2 ^ 53 * 2 ^ 2045) by (rewrite <- Z.pow_add_r by lia; reflexivity).
    pose proof (Z.pow_pos_nonneg 2 2045). lia.
  - rewrite Z.sgn_pos by lia. f_equal. lia.
Qed.

Lemma of_int_1024 : of_int 1024 = Ok (Fin (2 ^ 52) (-42)).
Proof. vm_compute. reflexivity. Qed.

Lemma div_int_1024 m e :
  div_int (Fin m e) 1024 = Ok (round_ratio (scaled m e) (1024 * scale)).
Proof.
  unfold div_int. rewrite of_int_1024. cbn [bind_result].
  change (2 ^ 52) with 4503599627370496. cbn [div].
  change (Z.sgn 4503599627370496) with 1. rewrite Z.mul_1_r.
  replace (Z.abs (scaled 4503599627370496 (-42))) with (1024 * scale)
    by (vm_compute; reflexivity).
  reflexivity.
Qed.

Lemma int_truediv_1024 n :
  int_truediv n 1024 =
    match round_ratio n 1024 with Inf _ => Raise OverflowError | x => Ok x end.
Proof.
  unfold int_truediv. change (1024 =? 0) with false. cbv iota.
  change (Z.sgn 1024) with 1. change (Z.abs 1024) with 1024.
  rewrite Z.mul_1_r. reflexivity.
Qed.

(** The quotient in MiB of a positive byte count: defined below
    [2^1024], exact below 1 MiB and at least [1.0] from 1 MiB on. *)
Lemma mebibytes_pos n :
  0 < n < 2 ^ 1024 ->
  exists m e, mebibytes n = Ok (Fin m e) /\
    (n < 2 ^ 20 -> scaled m e = n * 2 ^ 1054) /\
    (2 ^ 20 <= n -> scale <= scaled m e).
Proof.
  intros [Hn0 Hn1]. pose proof scale_pos as Hu.
  assert (Hmax : n <= max_finite * 1024) by (unfold max_finite; lia).
  destruct (round_ratio_finite n 1024 Hn0 ltac:(lia) Hmax) as (m1 & e1 & Hr1 & Hq1).
  assert (Hpos1 : 1 <= scaled m1 e1).
  { apply (round_pos_ge n 1024); auto; [|unfold scale; lia].
    exists 1, 0. lia. }
  assert (Hfin1 : scaled m1 e1 <= (2 ^ 53 - 1) * 2 ^ 2045).
  { apply (round_pos_le n 1024); auto.
    - exists (2 ^ 53 - 1), 2045. lia.
    - unfold scale, max_finite in *. lia. }
  assert (Hmax2 : scaled m1 e1 <= max_finite * (1024 * scale)).
  { unfold scale, max_finite in *. lia. }
  destruct (round_ratio_finite (scaled m1 e1) (1024 * scale) ltac:(lia) ltac:(lia) Hmax2)
    as (m2 & e2 & Hr2 & Hq2).
  exists m2, e2. split; [|split].
  - unfold mebibytes. rewrite int_truediv_1024, Hq1. cbn [bind_result].
    rewrite div_int_1024, Hq2. reflexivity.
  - intros Hsmall.
    assert (E1 : scaled m1 e1 = n * 2 ^ 1064).
    { apply (round_pos_exact n 1024); auto.
      - exists n, 1064. lia.
      - unfold scale. lia. }
    apply (round_pos_exact (scaled m1 e1) (1024 * scale));
      [lia | lia | exact Hr2 | exists n, 1054; lia | rewrite E1; unfold scale; lia].
  - intros Hbig.
    assert (E1 : 2 ^ 1084 <= scaled m1 e1).
    { apply (round_pos_ge n 1024); auto.
      - exists 1, 1084. lia.
      - unfold scale. lia. }
    apply (round_pos_ge (scaled m1 e1) (1024 * scale));
      [lia | lia | exact Hr2 | exists 1, 1074; unfold scale; lia | unfold scale in *; lia].
Qed.

(** The gate on a byte count: the quotient is defined and compares with
    [1.0] as the count compares with [2^20]. *)
Lemma mebibytes_gate n :
  0 <= n < 2 ^ 1024 ->
  exists size, mebibytes n = Ok size /\ too_large size = (1048576 <=? n).
Proof.
  intros [Hn0 Hn1].
  destruct (Z.eq_dec n 0) as [->|Hne].
  { exists (Fin 0 0). split; vm_compute; reflexivity. }
  destruct (mebibytes_pos n ltac:(lia)) as (m & e & Hm & Hlt & Hge).
  exists (Fin m e). split; [exact Hm|].
  unfold too_large, lit_1_0. cbn [ge].
  change (scaled 1 0) with scale.
  destruct (Z.leb_spec 1048576 n) as [H|H].
  - apply Z.leb_le. apply Hge. lia.
  - apply Z.leb_gt. rewrite Hlt by lia. unfold scale. lia.
Qed.

(** C1. The size gate is a function of the byte count alone. For every
    byte count [n] whose quotient still is a finite float, that is for all
    [0 <= n < 2^1024], dividing by 1024 and again by 1024 in binary64 and
    comparing the result with [1.0] gives exactly the integer comparison
    [1048576 <= n]: neither division rounds across the 1 MiB boundary. *)
Theorem size_gate_threshold n :
  0 <= n < 2 ^ 1024 -> size_gate n = Ok (1048576 <=? n).
Proof.
  intros Hn. unfold size_gate.
  destruct (mebibytes_gate n Hn) as (size & -> & Hg).
  cbn [bind_result]. rewrite Hg. reflexivity.
Qed.

(** Past the binary64 range the first division raises: the bound of
    [size_gate_threshold] is where the quotient stops being a float. *)
Lemma size_gate_beyond_floats : size_gate (2 ^ 1034) = Raise OverflowError.
Proof. vm_compute. reflexivity. Qed.

(** The literal [0.9] is the double just above nine tenths. *)
Lemma lit_0_9_eq : lit_0_9 = Fin 8106479329266893 (-53).
Proof. vm_compute. reflexivity. Qed.

(** [float(w)] is exact below [2^53]. *)
Lemma of_int_exact w :
  0 < w < 2 ^ 53 ->
  exists m e, of_int w = Ok (Fin m e) /\ scaled m e = w * scale.
Proof.
  intros [H0 H1].
  assert (Hmax : w <= max_finite * 1) by (unfold max_finite; lia).
  destruct (round_ratio_finite w 1 H0 ltac:(lia) Hmax) as (m & e & Hr & Hq).
  exists m, e. split.
  - unfold of_int. rewrite Hq. reflexivity.
  - apply (round_pos_exact w 1); [lia | lia | exact Hr | | lia].
    exists w, 1074. unfold scale. lia.
Qed.

Lemma scale_90_exact w :
  0 <= w < 2 ^ 50 -> scale_90 w = Ok (9 * w / 10).
Proof.
  intros [H0 H1].
  destruct (Z.eq_dec w 0) as [->|Hne]; [vm_compute; reflexivity|].
  destruct (of_int_exact w ltac:(lia)) as (m1 & e1 & Hw & Hs1).
  unfold scale_90, int_mul. rewrite Hw, lit_0_9_eq. cbn [bind_result mul].
  rewrite Hs1.
  replace (scaled 8106479329266893 (-53)) with (8106479329266893 * 2 ^ 1021)
    by (vm_compute; reflexivity).
  set (a := w * scale * (8106479329266893 * 2 ^ 1021)).
  set (k := 9 * w / 10).
  assert (Hk : 10 * k <= 9 * w < 10 * k + 10).
  { unfold k. pose proof (Z.div_mod (9 * w) 10 ltac:(lia)).
    pose proof (Z.mod_pos_bound (9 * w) 10 ltac:(lia)). lia. }
  assert (Ha : 0 < a) by (unfold a, scale; lia).
  assert (Hb : 0 < scale * scale) by (unfold scale; lia).
  assert (Hmax : a <= max_finite * (scale * scale)).
  { unfold a, max_finite, scale. lia. }
  destruct (round_ratio_finite a (scale * scale) Ha Hb Hmax) as (m & e & Hr & Hq).
  rewrite Hq. cbn [to_int]. f_equal.
  (* the product is at least k *)
  assert (Hlo : k * scale <= scaled m e).
  { apply (round_pos_ge a (scale * scale)); [exact Ha | exact Hb | exact Hr | |].
    - exists k, 1074. unfold scale. lia.
    - unfold a, scale. lia. }
  (* and stays below k + 1: the error of 0.9 and half a scale in the last
     place add up to less than one tenth *)
  assert (Hhi : scaled m e < (k + 1) * scale).
  { destruct (round_pos_spec a (scale * scale) m e Ha Hb Hr) as (Hs & Hm & _ & Hnorm).
    cbv zeta in Hs, Hm, Hnorm.
    unfold scaled in *. set (s := e - emin) in *.
    pose proof (Z.pow_pos_nonneg 2 s ltac:(lia) Hs) as HP.
    assert (Hd : 0 < scale * scale * 2 ^ s) by nia.
    pose proof (rne_bounds (a * scale) (scale * scale * 2 ^ s) Hd) as Hrb.
    rewrite <- Hm in Hrb.
    assert (HP' : 2 ^ s <= 2 ^ 1071).
    { apply Z.pow_le_mono_r; [lia|].
      destruct Hnorm as [E|Hn]; [lia|].
      assert (2 ^ s < 2 ^ 1072); [|apply Z.pow_lt_mono_r_iff in H; lia].
      unfold a, scale in Hn. lia. }
    unfold a, scale in *. lia. }
  rewrite Z.quot_div_nonneg by (pose proof scale_pos; lia).
  symmetry. apply Z.div_unique with (r := scaled m e - k * scale); lia.
Qed.

(** The arithmetic of the script raises nothing but its own errors. *)
Lemma mebibytes_raises n e : mebibytes n = Raise e -> e = OverflowError.
Proof.
  unfold mebibytes. rewrite int_truediv_1024.
  destruct (round_ratio n 1024) as [m x| |]; cbn [bind_result].
  - rewrite div_int_1024. discriminate.
  - congruence.
  - unfold div_int. rewrite of_int_1024. cbn. discriminate.
Qed.

End GateFacts.

Section ArithmeticFacts.
Import Binary64 Binary64Facts.

Lemma round_ratio_not_nan a b : round_ratio a b <> NaN.
Proof.
  unfold round_ratio. destruct (a =? 0); [discriminate|].
  destruct (round_pos (Z.abs a) b) as [m e].
  destruct (_ <=? _); discriminate.
Qed.

Lemma scale_90_overflow_only d e : scale_90 d = Raise e -> e = OverflowError.
Proof.
  unfold scale_90, int_mul, of_int. rewrite lit_0_9_eq.
  pose proof (round_ratio_not_nan d 1) as Hn.
  destruct (round_ratio d 1) as [m x| |]; cbn [bind_result mul]; [| |congruence].
  - match goal with |- context [round_ratio ?a ?b] =>
      pose proof (round_ratio_not_nan a b) as Hn'; destruct (round_ratio a b)
    end; cbn [to_int]; congruence.
  - congruence.
Qed.

(** X1. The size in MiB the script computes and prints is exact: for every
    byte count below [2^53] the two divisions by 1024 round nothing, and
    the float obtained times 1048576 is the byte count. *)
Theorem mebibytes_is_exact n :
  0 <= n < 2 ^ 53 ->
  exists m e, mebibytes n = Ok (Fin m e) /\ scaled m e * 1048576 = n * scale.
Proof.
  intros [Hn0 Hn1]. pose proof scale_pos as Hu.
  destruct (Z.eq_dec n 0) as [->|Hne].
  { exists 0, 0. split; [vm_compute; reflexivity | reflexivity]. }
  assert (Hmax : n <= max_finite * 1024) by (unfold max_finite; lia).
  destruct (round_ratio_finite n 1024 ltac:(lia) ltac:(lia) Hmax)
    as (m1 & e1 & Hr1 & Hq1).
  assert (E1 : scaled m1 e1 = n * 2 ^ 1064).
  { apply (round_pos_exact n 1024); [lia | lia | exact Hr1 | | unfold scale; lia].
    exists n, 1064. lia. }
  assert (Hmax2 : scaled m1 e1 <= max_finite * (1024 * scale)).
  { rewrite E1. unfold scale, max_finite. lia. }
  destruct (round_ratio_finite (scaled m1 e1) (1024 * scale) ltac:(lia) ltac:(lia) Hmax2)
    as (m2 & e2 & Hr2 & Hq2).
  exists m2, e2. split.
  - unfold mebibytes. rewrite int_truediv_1024, Hq1. cbn [bind_result].
    rewrite div_int_1024, Hq2. reflexivity.
  - assert (E2 : scaled m2 e2 = n * 2 ^ 1054).
    { apply (round_pos_exact (scaled m1 e1) (1024 * scale));
        [lia | lia | exact Hr2 | exists n, 1054; lia | rewrite E1; unfold scale; lia]. }
    rewrite E2. unfold scale. lia.
Qed.

(** X2. [int(d * 0.9)] shrinks every dimension [1 <= d < 2^50]: the
    result is non-negative, strictly below [d], and within one of nine
    tenths of [d], so the first resize target is smaller than the image in
    both directions. *)
Theorem scale_90_shrinks d :
  1 <= d < 2 ^ 50 ->
  exists r, scale_90 d = Ok r /\ 0 <= r < d /\ 10 * r <= 9 * d < 10 * r + 10.
Proof.
  intros Hd. exists (9 * d / 10). split; [apply scale_90_exact; lia|].
  pose proof (Z.div_mod (9 * d) 10 ltac:(lia)).
  pose proof (Z.mod_pos_bound (9 * d) 10 ltac:(lia)). lia.
Qed.
End ArithmeticFacts.

(** ** Runs *)

Import Script.

Lemma paths_differ : String.eqb logo_optimized downloads = false.
Proof. reflexivity. Qed.

(** Symbolic execution of the script: unfold the monad, then follow the
    equations at hand and split on what is left undetermined. *)
Ltac unfold_script :=
  cbv beta iota zeta delta
    [run main method1 method2 method3 publish Image_open getsize save resize copy
     print bind ret raise lift emit read write] in *.

Ltac simp_script :=
  repeat first
    [ progress cbn [files log fst snd app] in *
    | rewrite lookup_insert_eq in *
    | rewrite paths_differ in *
    | progress change ((0 <? 800) && (0 <? 800)) with true in * ].

Ltac step H :=
  match type of H with
  | context [match ?x with _ => _ end] =>
      lazymatch x with
      | context [match _ with _ => _ end] => fail
      | _ => destruct x eqn:?
      end
  end; simp_script.

Ltac run_cases H :=
  unfold_script; simp_script; repeat step H;
  try (injection H as <- <-); simp_script.

(** Two outcomes of one expression are the same outcome. *)
Ltac same_results :=
  repeat match goal with
    | H1 : ?x = Ok ?a, H2 : ?x = Ok ?b |- _ =>
        is_var b; rewrite H1 in H2; injection H2 as <-
    end.

Ltac in_list Hp :=
  cbn in Hp;
  repeat (apply elem_of_cons in Hp as [Hp|Hp]; [subst; auto|]);
  try (apply elem_of_nil in Hp; contradiction).




Section RunFacts.
Context (P : Platform).

(** C9. The source file [logo_original.png] is only read. Whatever path a
    run takes and however it ends, the file's bytes are those it had at the
    start, every path other than the working output and the destination
    keeps its content, and every call that writes (save, copy) writes to one
    of these two paths. *)
Theorem source_never_written (fs : gmap string bytes) :
  files (run P fs).2 !! logo_original = fs !! logo_original /\
  (forall p, p <> logo_optimized -> p <> downloads ->
             files (run P fs).2 !! p = fs !! p) /\
  (forall p, p ∈ written_paths (log (run P fs).2) ->
             p = logo_optimized \/ p = downloads).
Proof.
  destruct (run P fs) as [r w'] eqn:H. cbn [snd].
  run_cases H.
  all: split; [|split].
  all: try (intros p Hp1 Hp2).
  all: rewrite ?lookup_insert_ne by (first [discriminate | congruence]);
    try congruence.
  all: intros p Hp; in_list Hp.
Qed.

(** C6. In every run that ends normally, the destination file exists and
    holds the bytes of the last encoding written to the working output
    path, which still holds them too; the copy is the last write of the
    run, it replaces whatever the destination held before, and it is made
    whether or not a resize took place. *)
Theorem published_is_last_encoding (fs : gmap string bytes) (w' : World) :
  run P fs = (Ok tt, w') ->
  exists img quality,
    last (saved_images (log w')) = Some (img, quality) /\
    files w' !! logo_optimized = Some (png_encode P img true quality) /\
    files w' !! downloads = Some (png_encode P img true quality) /\
    last (written_paths (log w')) = Some downloads /\
    Copy logo_optimized downloads ∈ log w'.
Proof.
  intros H. run_cases H; try discriminate.
  all: injection H as <-; cbn [files log].
  all: eexists _, _; split; [reflexivity|].
  all: rewrite lookup_insert_eq, lookup_insert_ne, lookup_insert_eq by discriminate.
  all: repeat split; try reflexivity.
  all: rewrite !elem_of_cons; auto 25.
Qed.

(** C3, as amended. No resize changes its input, and every resize of a
    run, the 800 x 800 one included, takes the image decoded from the
    source file as its input: the image produced by the first resize is
    only encoded, never resized again. A run makes at most two resize
    calls. *)
Theorem every_resize_reads_the_original (fs : gmap string bytes) (bs : bytes) (img : Image) :
  fs !! logo_original = Some bs -> png_decode P bs = Some img ->
  Forall (fun call => call.1 = img) (resize_calls (log (run P fs).2)) /\
  (length (resize_calls (log (run P fs).2)) <= 2)%nat /\
  (forall input, (input, (800, 800)) ∈ resize_calls (log (run P fs).2) -> input = img).
Proof.
  intros Hfs Hdec.
  destruct (run P fs) as [r w'] eqn:H. cbn [snd].
  run_cases H; simplify_eq.
  all: split; [|split].
  all: cbn; repeat constructor.
  all: intros input Hin; in_list Hin; congruence.
Qed.








Lemma size_of_nonneg (bs : bytes) : 0 <= size_of bs.
Proof. unfold size_of. lia. Qed.

(** The gate on a file the script can measure. *)
Lemma gate_of_file (bs : bytes) :
  measurable bs ->
  exists size, mebibytes (size_of bs) = Ok size /\
               too_large size = (1048576 <=? size_of bs).
Proof.
  intros Hm. apply mebibytes_gate. split; [apply size_of_nonneg | exact Hm].
Qed.

(** C5. When the first encoding is smaller than 1 MiB the run makes no
    resize call at all; if it ends normally, the one image it ever saved is
    the decoded original, with its own width and height, and the published
    file is that encoding. It does end normally when the source can be
    measured and both output paths can be written. *)
Theorem no_resize_below_one_mebibyte (fs : gmap string bytes) (bs : bytes) (img : Image) :
  fs !! logo_original = Some bs -> png_decode P bs = Some img ->
  size_of (png_encode P img true 85) < 1048576 ->
  resize_calls (log (run P fs).2) = [] /\
  (fst (run P fs) = Ok tt ->
   saved_images (log (run P fs).2) = [(img, 85)] /\
   files (run P fs).2 !! downloads = Some (png_encode P img true 85)) /\
  (measurable bs -> writable P logo_optimized = true ->
   writable P downloads = true -> fst (run P fs) = Ok tt).
Proof.
  intros Hfs Hdec Hsmall.
  assert (Hm1 : measurable (png_encode P img true 85))
    by (unfold measurable; lia).
  destruct (gate_of_file _ Hm1) as (size1 & Hs1 & Hg1).
  rewrite (proj2 (Z.leb_gt _ _) Hsmall) in Hg1.
  destruct (run P fs) as [r w'] eqn:H. cbn [fst snd].
  run_cases H; simplify_eq; try congruence.
  all: split; [reflexivity|]; split.
  all: try (intros Hok; first [discriminate | split; [reflexivity|]]).
  all: rewrite ?lookup_insert_eq; try reflexivity.
  all: intros Hm Hw1 Hw2; try reflexivity; try congruence.
  all: destruct (gate_of_file _ Hm) as (s & Hs & _); congruence.
Qed.

Lemma gate_open (bs : bytes) :
  oversize bs -> measurable bs ->
  exists size, mebibytes (size_of bs) = Ok size /\ too_large size = true.
Proof.
  intros Hge Hm. destruct (gate_of_file bs Hm) as (s & Hs & Hg).
  exists s. split; [exact Hs|]. rewrite Hg. apply Z.leb_le. exact Hge.
Qed.

Lemma scaled_positive (d : Z) : 2 <= d -> 0 < 9 * d / 10.
Proof. intros Hd. apply Z.div_str_pos. lia. Qed.

(** C2, as amended. [int(d * 0.9)] is the floor of nine tenths of [d] for
    every dimension [0 <= d < 2^50]. For a source image with both
    dimensions at least 2 and below [2^50] whose first encoding is 1 MiB or
    more, the first resize is called on the decoded image with the target
    (floor(0.9 width), floor(0.9 height)), and the image it returns, which
    has exactly these dimensions, is the next one saved. *)
Theorem stage1_resize_is_floor (fs : gmap string bytes) (bs : bytes) (img : Image) :
  fs !! logo_original = Some bs -> png_decode P bs = Some img ->
  measurable bs -> writable P logo_optimized = true ->
  oversize (png_encode P img true 85) -> measurable (png_encode P img true 85) ->
  2 <= width img < 2 ^ 50 -> 2 <= height img < 2 ^ 50 ->
  let new_size := (9 * width img / 10, 9 * height img / 10) in
  (forall d, 0 <= d < 2 ^ 50 -> scale_90 d = Ok (9 * d / 10)) /\
  width (resized P img new_size) = 9 * width img / 10 /\
  height (resized P img new_size) = 9 * height img / 10 /\
  (exists later, resize_calls (log (run P fs).2) = (img, new_size) :: later) /\
  (exists later, saved_images (log (run P fs).2) =
                   (img, 85) :: (resized P img new_size, 85) :: later).
Proof.
  intros Hfs Hdec Hm0 Hw Hbig Hm1 Hwd Hht new_size.
  split; [exact scale_90_exact|]. split; [reflexivity|]. split; [reflexivity|].
  destruct (gate_of_file _ Hm0) as (mb & Hs0 & _).
  destruct (gate_open _ Hbig Hm1) as (size1 & Hs1 & Hg1).
  pose proof (scale_90_exact (width img) ltac:(lia)) as Hnw.
  pose proof (scale_90_exact (height img) ltac:(lia)) as Hnh.
  pose proof (scaled_positive _ (proj1 Hwd)) as Hpw.
  pose proof (scaled_positive _ (proj1 Hht)) as Hph.
  assert (Hpos : (0 <? 9 * width img / 10) && (0 <? 9 * height img / 10) = true).
  { apply andb_true_intro. split; apply Z.ltb_lt; assumption. }
  unfold new_size. clear new_size.
  destruct (run P fs) as [r w'] eqn:H. cbn [snd].
  run_cases H; simplify_eq; try congruence; same_results.
  all: try (rewrite Hpos in *; discriminate).
  all: split; eexists; reflexivity.
Qed.

(** C4. When the second encoding still is 1 MiB or more, the run resizes
    the image to exactly 800 x 800, whatever the original dimensions,
    encodes the result at quality 80, reads its size only to print it, and
    publishes it: the run ends normally with that encoding at the
    destination, whatever its size. *)
Theorem second_pass_always_publishes (fs : gmap string bytes) (bs : bytes)
    (img : Image) (new_width new_height : Z) :
  fs !! logo_original = Some bs -> png_decode P bs = Some img ->
  measurable bs ->
  writable P logo_optimized = true -> writable P downloads = true ->
  oversize (png_encode P img true 85) -> measurable (png_encode P img true 85) ->
  scale_90 (width img) = Ok new_width -> scale_90 (height img) = Ok new_height ->
  0 < new_width -> 0 < new_height ->
  let stage1 := png_encode P (resized P img (new_width, new_height)) true 85 in
  oversize stage1 -> measurable stage1 ->
  let final := resized P img (800, 800) in
  measurable (png_encode P final true 80) ->
  width final = 800 /\ height final = 800 /\
  fst (run P fs) = Ok tt /\
  files (run P fs).2 !! logo_optimized = Some (png_encode P final true 80) /\
  files (run P fs).2 !! downloads = Some (png_encode P final true 80) /\
  exists before size3,
    log (run P fs).2 =
      before ++ [Resize img (800, 800); Save final logo_optimized true 80;
                 Getsize logo_optimized; Print (MsgResized (800, 800) size3);
                 Copy logo_optimized downloads; Print MsgSaved].
Proof.
  intros Hfs Hdec Hm0 Hw1 Hw2 Hbig1 Hm1 Hnw Hnh Hpw Hph stage1 Hbig2 Hm2 final Hm3.
  split; [reflexivity|]. split; [reflexivity|].
  destruct (gate_of_file _ Hm0) as (mb & Hs0 & _).
  destruct (gate_open _ Hbig1 Hm1) as (size1 & Hs1 & Hg1).
  destruct (gate_open _ Hbig2 Hm2) as (size2 & Hs2 & Hg2).
  destruct (gate_of_file _ Hm3) as (size3 & Hs3 & _).
  assert (Hpos : (0 <? new_width) && (0 <? new_height) = true).
  { apply andb_true_intro. split; apply Z.ltb_lt; assumption. }
  unfold stage1, final in *. clear stage1 final.
  destruct (run P fs) as [r w'] eqn:H. cbn [fst snd].
  run_cases H; simplify_eq; try congruence; same_results.
  all: try (rewrite Hpos in *; discriminate).
  split; [reflexivity|].
  rewrite lookup_insert_ne, !lookup_insert_eq by discriminate.
  split; [reflexivity|]. split; [reflexivity|].
  eexists (_ :: _ :: _ :: _ :: _ :: _ :: _ :: _ :: _ :: _ :: _ :: _ :: []), _.
  reflexivity.
Qed.

(** C10. Nothing guards the first resize target. For a source image with
    width or height at most 1 whose first encoding is 1 MiB or more,
    [int(dimension * 0.9)] is 0 for that dimension, the resize is called
    with this target all the same (it is the last entry of the log), its
    precondition of positive dimensions fails, and the run ends in the
    ValueError it raises. *)
Theorem degenerate_target_reaches_resize (fs : gmap string bytes) (bs : bytes) (img : Image) :
  fs !! logo_original = Some bs -> png_decode P bs = Some img ->
  measurable bs -> writable P logo_optimized = true ->
  oversize (png_encode P img true 85) -> measurable (png_encode P img true 85) ->
  0 <= width img < 2 ^ 50 -> 0 <= height img < 2 ^ 50 ->
  width img <= 1 \/ height img <= 1 ->
  exists new_width new_height,
    scale_90 (width img) = Ok new_width /\
    scale_90 (height img) = Ok new_height /\
    (width img <= 1 -> new_width = 0) /\
    (height img <= 1 -> new_height = 0) /\
    raised_by P (files (run P fs).2) (Resize img (new_width, new_height)) = Some ValueError /\
    last (log (run P fs).2) = Some (Resize img (new_width, new_height)) /\
    fst (run P fs) = Raise ValueError.
Proof.
  intros Hfs Hdec Hm0 Hw Hbig Hm1 Hwd Hht Hsmall.
  destruct (gate_of_file _ Hm0) as (mb & Hs0 & _).
  destruct (gate_open _ Hbig Hm1) as (size1 & Hs1 & Hg1).
  pose proof (scale_90_exact (width img) Hwd) as Hnw.
  pose proof (scale_90_exact (height img) Hht) as Hnh.
  exists (9 * width img / 10), (9 * height img / 10).
  split; [exact Hnw|]. split; [exact Hnh|].
  assert (H0w : width img <= 1 -> 9 * width img / 10 = 0)
    by (intros ?; apply Z.div_small; lia).
  assert (H0h : height img <= 1 -> 9 * height img / 10 = 0)
    by (intros ?; apply Z.div_small; lia).
  split; [exact H0w|]. split; [exact H0h|].
  assert (Hneg : (0 <? 9 * width img / 10) && (0 <? 9 * height img / 10) = false).
  { apply andb_false_iff. destruct Hsmall as [Hs|Hs]; [left|right];
      apply Z.ltb_ge; rewrite ?(H0w Hs), ?(H0h Hs); lia. }
  split; [cbn [raised_by fst snd]; rewrite Hneg; reflexivity|].
  destruct (run P fs) as [r w'] eqn:H. cbn [fst snd].
  run_cases H; simplify_eq; try congruence; same_results.
  all: try (rewrite Hneg in *; discriminate).
  split; reflexivity.
Qed.

(** The two resize calls of a run that fails both gates. *)
Lemma second_pass_resize_calls (fs : gmap string bytes) (bs : bytes)
    (img : Image) (new_width new_height : Z) :
  fs !! logo_original = Some bs -> png_decode P bs = Some img ->
  measurable bs -> writable P logo_optimized = true ->
  oversize (png_encode P img true 85) -> measurable (png_encode P img true 85) ->
  scale_90 (width img) = Ok new_width -> scale_90 (height img) = Ok new_height ->
  0 < new_width -> 0 < new_height ->
  oversize (png_encode P (resized P img (new_width, new_height)) true 85) ->
  measurable (png_encode P (resized P img (new_width, new_height)) true 85) ->
  resize_calls (log (run P fs).2) =
    [(img, (new_width, new_height)); (img, (800, 800))].
Proof.
  intros Hfs Hdec Hm0 Hw1 Hbig1 Hm1 Hnw Hnh Hpw Hph Hbig2 Hm2.
  destruct (gate_of_file _ Hm0) as (mb & Hs0 & _).
  destruct (gate_open _ Hbig1 Hm1) as (size1 & Hs1 & Hg1).
  destruct (gate_open _ Hbig2 Hm2) as (size2 & Hs2 & Hg2).
  assert (Hpos : (0 <? new_width) && (0 <? new_height) = true).
  { apply andb_true_intro. split; apply Z.ltb_lt; assumption. }
  destruct (run P fs) as [r w'] eqn:H. cbn [snd].
  run_cases H; simplify_eq; try congruence; same_results.
  all: try (rewrite Hpos in *; discriminate).
  all: reflexivity.
Qed.

(** A run whose first target has a non-positive dimension ends in the
    resize call. *)
Lemma degenerate_run_raises (fs : gmap string bytes) (bs : bytes)
    (img : Image) (new_width new_height : Z) :
  fs !! logo_original = Some bs -> png_decode P bs = Some img ->
  measurable bs -> writable P logo_optimized = true ->
  oversize (png_encode P img true 85) -> measurable (png_encode P img true 85) ->
  scale_90 (width img) = Ok new_width -> scale_90 (height img) = Ok new_height ->
  (0 <? new_width) && (0 <? new_height) = false ->
  fst (run P fs) = Raise ValueError.
Proof.
  intros Hfs Hdec Hm0 Hw1 Hbig1 Hm1 Hnw Hnh Hneg.
  destruct (gate_of_file _ Hm0) as (mb & Hs0 & _).
  destruct (gate_open _ Hbig1 Hm1) as (size1 & Hs1 & Hg1).
  destruct (run P fs) as [r w'] eqn:H. cbn [fst].
  run_cases H; simplify_eq; try congruence; same_results.
  all: try (rewrite Hneg in *; discriminate).
  all: reflexivity.
Qed.

(** A run that passes the first gate and may write both files succeeds. *)
Lemma direct_run_succeeds (fs : gmap string bytes) (bs : bytes) (img : Image) :
  fs !! logo_original = Some bs -> png_decode P bs = Some img ->
  measurable bs ->
  writable P logo_optimized = true -> writable P downloads = true ->
  size_of (png_encode P img true 85) < 1048576 ->
  fst (run P fs) = Ok tt.
Proof.
  intros Hfs Hdec Hm0 Hw1 Hw2 Hsmall.
  assert (Hm1 : measurable (png_encode P img true 85))
    by (unfold measurable; lia).
  destruct (gate_of_file _ Hm0) as (mb & Hs0 & _).
  destruct (gate_of_file _ Hm1) as (size1 & Hs1 & Hg1).
  rewrite (proj2 (Z.leb_gt _ _) Hsmall) in Hg1.
  destruct (run P fs) as [r w'] eqn:H. cbn [fst].
  run_cases H; simplify_eq; try congruence.
  all: reflexivity.
Qed.
End RunFacts.

Section PathFacts.
Context (P : Platform).

(** X5. Whatever the run does, it saves at most three times, always to the
    working output path with [optimize=True], at the qualities 85, 85, 80
    in this order; and every resize but possibly the last is followed by a
    save. *)
Theorem every_save_uses_fixed_settings (fs : gmap string bytes) :
  map snd (save_settings (log (run P fs).2)) `prefix_of` [85; 85; 80] /\
  Forall (fun s => s.1 = (logo_optimized, true))
         (save_settings (log (run P fs).2)) /\
  (length (resize_calls (log (run P fs).2))
   <= length (save_settings (log (run P fs).2))
   <= length (resize_calls (log (run P fs).2)) + 1)%nat.
Proof.
  destruct (run P fs) as [r w'] eqn:H. cbn [snd].
  run_cases H.
  all: split; [cbn; eexists; reflexivity|].
  all: split; [cbn; repeat constructor | cbn; lia].
Qed.

(** X6. When the first encoding is 1 MiB or more and the encoding of the
    resized image is below 1 MiB, the run resizes once, never to
    800 x 800, saves the original and the resized image at quality 85, and
    publishes the encoding of the resized image. *)
Theorem first_pass_only_publishes_stage1 (fs : gmap string bytes) (bs : bytes)
    (img : Image) (new_width new_height : Z) :
  fs !! logo_original = Some bs -> png_decode P bs = Some img ->
  measurable bs ->
  writable P logo_optimized = true -> writable P downloads = true ->
  oversize (png_encode P img true 85) -> measurable (png_encode P img true 85) ->
  scale_90 (width img) = Ok new_width -> scale_90 (height img) = Ok new_height ->
  0 < new_width -> 0 < new_height ->
  let img_resized := resized P img (new_width, new_height) in
  size_of (png_encode P img_resized true 85) < 1048576 ->
  fst (run P fs) = Ok tt /\
  resize_calls (log (run P fs).2) = [(img, (new_width, new_height))] /\
  saved_images (log (run P fs).2) = [(img, 85); (img_resized, 85)] /\
  files (run P fs).2 !! downloads = Some (png_encode P img_resized true 85).
Proof.
  intros Hfs Hdec Hm0 Hw1 Hw2 Hbig1 Hm1 Hnw Hnh Hpw Hph img_resized Hsmall.
  unfold img_resized in *. clear img_resized.
  assert (Hm2 : measurable (png_encode P (resized P img (new_width, new_height)) true 85))
    by (unfold measurable; lia).
  destruct (gate_of_file _ Hm0) as (mb & Hs0 & _).
  destruct (gate_open _ Hbig1 Hm1) as (size1 & Hs1 & Hg1).
  destruct (gate_of_file _ Hm2) as (size2 & Hs2 & Hg2).
  rewrite (proj2 (Z.leb_gt _ _) Hsmall) in Hg2.
  assert (Hpos : (0 <? new_width) && (0 <? new_height) = true).
  { apply andb_true_intro. split; apply Z.ltb_lt; assumption. }
  destruct (run P fs) as [r w'] eqn:H. cbn [fst snd].
  run_cases H; simplify_eq; try congruence; same_results.
  all: try (rewrite Hpos in *; discriminate).
  all: try congruence.
  repeat split.
Qed.

(** X7. When the final copy raises, it is an IOError for an unwritable
    destination; the destination keeps what it held, and the working
    output path keeps the last encoding: the optimized file is left
    behind, unpublished. *)
Theorem failed_copy_keeps_the_encoding (fs : gmap string bytes) (e : Exn) (w' : World) :
  run P fs = (Raise e, w') ->
  last (log w') = Some (Copy logo_optimized downloads) ->
  e = IOError /\ writable P downloads = false /\
  files w' !! downloads = fs !! downloads /\
  exists img quality,
    last (saved_images (log w')) = Some (img, quality) /\
    files w' !! logo_optimized = Some (png_encode P img true quality).
Proof.
  intros H Hlast. run_cases H; try discriminate.
  all: repeat split; try reflexivity; try assumption.
  all: try (eexists _, _; split; [reflexivity|]).
  all: rewrite ?lookup_insert_ne by discriminate; reflexivity.
Qed.

(** X9. No run raises a ZeroDivisionError, and a ValueError can only come
    from the first resize: the run then made exactly one resize call, the
    last entry of its log, with the target computed from the image, one
    dimension of which is not positive. The 800 x 800 resize never
    raises. *)
Theorem value_error_is_the_first_resize (fs : gmap string bytes) (e : Exn) (w' : World) :
  run P fs = (Raise e, w') ->
  e <> ZeroDivisionError /\
  (e = ValueError ->
   exists img target,
     resize_calls (log w') = [(img, target)] /\
     last (log w') = Some (Resize img target) /\
     scale_90 (width img) = Ok target.1 /\
     scale_90 (height img) = Ok target.2 /\
     (target.1 <= 0 \/ target.2 <= 0)).
Proof.
  intros H. run_cases H; try discriminate.
  all: split;
    [ try discriminate;
      intros ->;
      first [ match goal with Hm : mebibytes _ = Raise _ |- _ =>
                apply mebibytes_raises in Hm; discriminate end
            | match goal with Hs : scale_90 _ = Raise _ |- _ =>
                apply scale_90_overflow_only in Hs; discriminate end ]
    | ].
  all: try (intros Hv; discriminate Hv).
  all: try (intros ->;
            first [ match goal with Hm : mebibytes _ = Raise _ |- _ =>
                      apply mebibytes_raises in Hm; discriminate end
                  | match goal with Hs : scale_90 _ = Raise _ |- _ =>
                      apply scale_90_overflow_only in Hs; discriminate end ]).
  all: intros _; eexists _, _; repeat split; try eassumption; cbn [fst snd].
  all: match goal with
       | Hneg : (0 <? ?a) && (0 <? ?b) = false |- _ =>
           apply andb_false_iff in Hneg; destruct Hneg as [Hneg|Hneg];
           apply Z.ltb_ge in Hneg; auto
       end.
Qed.

(** X10. A run that ends normally first reports the size of the source
    file and the dimensions and mode of the decoded image, ends with the
    closing message, and in between reports one size per save, each the
    size in MiB of the encoding just written to the working output. *)
Theorem report_follows_the_encodings (fs : gmap string bytes) (bs : bytes)
    (img : Image) (w' : World) :
  fs !! logo_original = Some bs -> png_decode P bs = Some img ->
  run P fs = (Ok tt, w') ->
  (exists mb later,
     mebibytes (size_of bs) = Ok mb /\
     printed (log w') =
       MsgOriginalSize mb :: MsgOriginalDimensions (width img, height img)
       :: MsgOriginalMode (mode img) :: later) /\
  last (printed (log w')) = Some MsgSaved /\
  Forall2 (fun mb saved => mebibytes (size_of (png_encode P saved.1 true saved.2)) = Ok mb)
          (reported_sizes (log w')) (saved_images (log w')).
Proof.
  intros Hfs Hdec H. run_cases H; try discriminate; simplify_eq.
  all: split; [eexists _, _; split; [eassumption|reflexivity]|].
  all: split; [reflexivity|].
  all: cbn; repeat constructor; cbn [fst snd]; assumption.
Qed.

(** X4. When the working output path cannot be written, the run changes
    no file at all and never ends normally; it attempts at most the first
    save. *)
Theorem unwritable_output_changes_nothing (fs : gmap string bytes) :
  writable P logo_optimized = false ->
  files (run P fs).2 = fs /\
  (exists e, fst (run P fs) = Raise e) /\
  save_settings (log (run P fs).2) `prefix_of` [(logo_optimized, true, 85)].
Proof.
  intros Hw. destruct (run P fs) as [r w'] eqn:H. cbn [fst snd].
  run_cases H; try congruence.
  all: split; [reflexivity|]; split; [eexists; reflexivity|].
  all: cbn; eexists; reflexivity.
Qed.
End PathFacts.

(** ** The scenarios *)

Section ScenarioFacts.
Import Scenario.
Context (source : Image) (may_write : string -> bool).

Lemma scenario_size (img : Image) (optimize : bool) (quality : Z) :
  0 <= width img * height img ->
  size_of (png_encode (platform source may_write) img optimize quality) =
    width img * height img.
Proof.
  intros H. unfold size_of. cbn [png_encode platform].
  rewrite repeat_length. apply Z2Nat.id. exact H.
Qed.

Lemma scenario_oversize (img : Image) (optimize : bool) (quality : Z) :
  1048576 <= width img * height img ->
  oversize (png_encode (platform source may_write) img optimize quality).
Proof. intros H. unfold oversize. rewrite scenario_size; lia. Qed.

Lemma scenario_measurable (img : Image) (optimize : bool) (quality : Z) :
  0 <= width img * height img < 2 ^ 1024 ->
  measurable (png_encode (platform source may_write) img optimize quality).
Proof. intros H. unfold measurable. rewrite scenario_size; lia. Qed.

Lemma scenario_source : source_only !! logo_original =
                        Some [Byte.x89; Byte.x50; Byte.x4e; Byte.x47].
Proof. reflexivity. Qed.

Lemma scenario_stale : with_stale_download !! logo_original =
                       Some [Byte.x89; Byte.x50; Byte.x4e; Byte.x47].
Proof. reflexivity. Qed.

Lemma scenario_source_measurable :
  measurable [Byte.x89; Byte.x50; Byte.x4e; Byte.x47].
Proof. unfold measurable, size_of. cbn [length]. lia. Qed.
End ScenarioFacts.

Import Scenario.

(** The gate on both sides of the boundary. *)
Lemma size_gate_at_the_boundary :
  size_gate 1048575 = Ok false /\ size_gate 1048576 = Ok true.
Proof.
  split.
  - apply (size_gate_threshold 1048575). lia.
  - apply (size_gate_threshold 1048576). lia.
Defined.

(** C2 as stated fails twice: the truncation exceeds the floor at the
    width 1250999896491811, and a strip one pixel wide gets the target
    width 0, at which the resize raises instead of returning an image. *)
Lemma stage1_floor_fails :
  scale_90 1250999896491811 = Ok 1125899906842630 /\
  9 * 1250999896491811 / 10 = 1125899906842629 /\
  scale_90 (width strip) = Ok 0 /\
  fst (run (platform strip anywhere) source_only) = Raise ValueError.
Proof.
  split; [vm_compute; reflexivity|]. split; [reflexivity|].
  split; [vm_compute; reflexivity|].
  eapply (degenerate_run_raises (platform strip anywhere) source_only _ strip 0 1800000).
  - apply scenario_source.
  - reflexivity.
  - apply scenario_source_measurable.
  - reflexivity.
  - apply scenario_oversize. cbn [width height strip blank]. lia.
  - apply scenario_measurable. cbn [width height strip blank]. lia.
  - vm_compute. reflexivity.
  - vm_compute. reflexivity.
  - reflexivity.
Qed.

(** The first resize of the 4000 x 3000 logo: 3600 x 2700. *)
Lemma stage1_resize_of_large :
  width (resized (platform large anywhere) large (3600, 2700)) = 3600 /\
  height (resized (platform large anywhere) large (3600, 2700)) = 2700 /\
  exists later,
    resize_calls (log (run (platform large anywhere) source_only).2) =
      (large, (3600, 2700)) :: later.
Proof.
  destruct (stage1_resize_is_floor (platform large anywhere) source_only
              [Byte.x89; Byte.x50; Byte.x4e; Byte.x47] large)
    as (_ & Hw & Hh & Hcalls & _).
  - apply scenario_source.
  - reflexivity.
  - apply scenario_source_measurable.
  - reflexivity.
  - apply scenario_oversize. cbn [width height large blank]. lia.
  - apply scenario_measurable. cbn [width height large blank]. lia.
  - cbn [width large blank]. lia.
  - cbn [height large blank]. lia.
  - split; [exact Hw|]. split; [exact Hh|]. exact Hcalls.
Defined.

(** C3 as stated fails: in the run of the 4000 x 3000 logo, which fails
    both gates, the 800 x 800 resize is called on the decoded original
    (width 4000), not on the image of the first resize (width 3600). *)
Lemma second_resize_reads_the_original :
  resize_calls (log (run (platform large anywhere) source_only).2) =
    [(large, (3600, 2700)); (large, (800, 800))] /\
  width large = 4000 /\
  width (resized (platform large anywhere) large (3600, 2700)) = 3600.
Proof.
  split; [|split; reflexivity].
  eapply (second_pass_resize_calls (platform large anywhere) source_only _ large 3600 2700).
  - apply scenario_source.
  - reflexivity.
  - apply scenario_source_measurable.
  - reflexivity.
  - apply scenario_oversize. cbn [width height large blank]. lia.
  - apply scenario_measurable. cbn [width height large blank]. lia.
  - vm_compute. reflexivity.
  - vm_compute. reflexivity.
  - lia.
  - lia.
  - apply scenario_oversize. cbn [width height resized fst snd]. lia.
  - apply scenario_measurable. cbn [width height resized fst snd]. lia.
Qed.

(** Both resizes of the 4000 x 3000 logo read the decoded original. *)
Lemma resizes_of_large_read_large :
  Forall (fun call => call.1 = large)
         (resize_calls (log (run (platform large anywhere) source_only).2)).
Proof.
  eapply (every_resize_reads_the_original (platform large anywhere) source_only).
  - apply scenario_source.
  - reflexivity.
Defined.

(** The 4000 x 3000 logo fails both gates and is published at 800 x 800. *)
Lemma second_pass_of_large_publishes :
  fst (run (platform large anywhere) source_only) = Ok tt /\
  files (run (platform large anywhere) source_only).2 !! downloads =
    Some (png_encode (platform large anywhere)
            (resized (platform large anywhere) large (800, 800)) true 80).
Proof.
  destruct (second_pass_always_publishes (platform large anywhere) source_only
              [Byte.x89; Byte.x50; Byte.x4e; Byte.x47] large 3600 2700)
    as (_ & _ & Hok & _ & Hpub & _).
  - apply scenario_source.
  - reflexivity.
  - apply scenario_source_measurable.
  - reflexivity.
  - reflexivity.
  - apply scenario_oversize. cbn [width height large blank]. lia.
  - apply scenario_measurable. cbn [width height large blank]. lia.
  - vm_compute. reflexivity.
  - vm_compute. reflexivity.
  - lia.
  - lia.
  - apply scenario_oversize. cbn [width height resized fst snd]. lia.
  - apply scenario_measurable. cbn [width height resized fst snd]. lia.
  - apply scenario_measurable. cbn [width height resized fst snd]. lia.
  - split; [exact Hok | exact Hpub].
Defined.

(** The 500 x 500 logo is published without a resize. *)
Lemma small_logo_is_not_resized :
  resize_calls (log (run (platform small anywhere) source_only).2) = [] /\
  fst (run (platform small anywhere) source_only) = Ok tt.
Proof.
  destruct (no_resize_below_one_mebibyte (platform small anywhere) source_only
              [Byte.x89; Byte.x50; Byte.x4e; Byte.x47] small)
    as (Hnone & _ & Hok).
  - apply scenario_source.
  - reflexivity.
  - rewrite scenario_size; cbn [width height small blank]; lia.
  - split; [exact Hnone|]. apply Hok.
    + apply scenario_source_measurable.
    + reflexivity.
    + reflexivity.
Defined.

(** A stale file at the destination is replaced by the encoding. *)
Lemma stale_download_is_overwritten :
  exists img quality,
    files (run (platform small anywhere) with_stale_download).2 !! downloads =
      Some (png_encode (platform small anywhere) img true quality) /\
    files (run (platform small anywhere) with_stale_download).2 !! logo_optimized =
      Some (png_encode (platform small anywhere) img true quality).
Proof.
  assert (Hok : fst (run (platform small anywhere) with_stale_download) = Ok tt).
  { eapply (direct_run_succeeds (platform small anywhere) with_stale_download _ small).
    - apply scenario_stale.
    - reflexivity.
    - apply scenario_source_measurable.
    - reflexivity.
    - reflexivity.
    - rewrite scenario_size; cbn [width height small blank]; lia. }
  destruct (run (platform small anywhere) with_stale_download) as [r w'] eqn:Hrun.
  cbn [fst snd] in *. subst r.
  destruct (published_is_last_encoding (platform small anywhere)
              with_stale_download w' Hrun)
    as (img & quality & _ & Hopt & Hpub & _).
  exists img, quality. split; [exact Hpub | exact Hopt].
Defined.


(** The one-pixel-wide strip reaches the resize with width 0. *)
Lemma strip_reaches_resize_with_zero_width :
  scale_90 (width strip) = Ok 0 /\
  fst (run (platform strip anywhere) source_only) = Raise ValueError.
Proof.
  destruct (degenerate_target_reaches_resize (platform strip anywhere) source_only
              [Byte.x89; Byte.x50; Byte.x4e; Byte.x47] strip)
    as (nw & nh & Hnw & _ & Hzero & _ & _ & _ & Hraise).
  - apply scenario_source.
  - reflexivity.
  - apply scenario_source_measurable.
  - reflexivity.
  - apply scenario_oversize. cbn [width height strip blank]. lia.
  - apply scenario_measurable. cbn [width height strip blank]. lia.
  - cbn [width strip blank]. lia.
  - cbn [height strip blank]. lia.
  - left. cbn [width strip blank]. lia.
  - split; [|exact Hraise].
    rewrite Hnw. f_equal. apply Hzero. cbn [width strip blank]. lia.
Defined.

(** A file of 1.5 MiB is reported as exactly 1.5. *)
Lemma exact_size_of_a_file_of_one_and_a_half_mebibytes :
  exists m e, mebibytes 1572864 = Ok (Binary64.Fin m e) /\
              Binary64.scaled m e * 1048576 = 1572864 * Binary64.scale.
Proof. apply (mebibytes_is_exact 1572864). lia. Defined.

(** The target for a width of 4000 is below 4000. *)
Lemma target_of_4000 :
  exists r, scale_90 4000 = Ok r /\ 0 <= r < 4000 /\ 10 * r <= 9 * 4000 < 10 * r + 10.
Proof. apply (scale_90_shrinks 4000). lia. Defined.

(** The 1100 x 1000 logo is resized once, to 990 x 900. *)
Lemma medium_logo_is_resized_once :
  fst (run (platform medium anywhere) source_only) = Ok tt /\
  resize_calls (log (run (platform medium anywhere) source_only).2) =
    [(medium, (990, 900))].
Proof.
  destruct (first_pass_only_publishes_stage1 (platform medium anywhere) source_only
              [Byte.x89; Byte.x50; Byte.x4e; Byte.x47] medium 990 900)
    as (Hok & Hcalls & _).
  - apply scenario_source.
  - reflexivity.
  - apply scenario_source_measurable.
  - reflexivity.
  - reflexivity.
  - apply scenario_oversize. cbn [width height medium blank]. lia.
  - apply scenario_measurable. cbn [width height medium blank]. lia.
  - vm_compute. reflexivity.
  - vm_compute. reflexivity.
  - lia.
  - lia.
  - rewrite scenario_size; cbn [width height resized fst snd]; lia.
  - split; [exact Hok | exact Hcalls].
Defined.

(** With only the working output writable, the copy raises and the
    encoding stays at the working output. *)
Lemma tiny_logo_stays_unpublished :
  files (run (platform tiny output_only) source_only).2 !! downloads = None /\
  exists img quality,
    files (run (platform tiny output_only) source_only).2 !! logo_optimized =
      Some (png_encode (platform tiny output_only) img true quality).
Proof.
  assert (Hrun : run (platform tiny output_only) source_only =
                 (Raise IOError, (run (platform tiny output_only) source_only).2)).
  { rewrite (surjective_pairing (run (platform tiny output_only) source_only)) at 1.
    f_equal; vm_compute; reflexivity. }
  destruct (failed_copy_keeps_the_encoding (platform tiny output_only) source_only
              IOError _ Hrun)
    as (_ & _ & Hdst & img & quality & _ & Hopt).
  - vm_compute. reflexivity.
  - split; [rewrite Hdst; reflexivity|]. exists img, quality. exact Hopt.
Defined.

(** The one-pixel-wide strip raises in its only resize call. *)
Lemma strip_raises_in_its_only_resize :
  exists img target,
    resize_calls (log (run (platform strip anywhere) source_only).2) = [(img, target)] /\
    (target.1 <= 0 \/ target.2 <= 0).
Proof.
  assert (Hraise : fst (run (platform strip anywhere) source_only) = Raise ValueError).
  { eapply (degenerate_run_raises (platform strip anywhere) source_only _ strip 0 1800000).
    - apply scenario_source.
    - reflexivity.
    - apply scenario_source_measurable.
    - reflexivity.
    - apply scenario_oversize. cbn [width height strip blank]. lia.
    - apply scenario_measurable. cbn [width height strip blank]. lia.
    - vm_compute. reflexivity.
    - vm_compute. reflexivity.
    - reflexivity. }
  destruct (run (platform strip anywhere) source_only) as [r w'] eqn:Hrun.
  cbn [fst snd] in *. subst r.
  destruct (value_error_is_the_first_resize (platform strip anywhere) source_only
              ValueError w' Hrun) as (_ & Hv).
  destruct (Hv eq_refl) as (img & target & Hcalls & _ & _ & _ & Hneg).
  exists img, target. split; [exact Hcalls | exact Hneg].
Defined.

(** The report on the 500 x 500 logo ends with the closing message. *)
Lemma small_logo_report :
  last (printed (log (run (platform small anywhere) source_only).2)) = Some MsgSaved.
Proof.
  assert (Hok : fst (run (platform small anywhere) source_only) = Ok tt).
  { eapply (direct_run_succeeds (platform small anywhere) source_only _ small).
    - apply scenario_source.
    - reflexivity.
    - apply scenario_source_measurable.
    - reflexivity.
    - reflexivity.
    - rewrite scenario_size; cbn [width height small blank]; lia. }
  destruct (run (platform small anywhere) source_only) as [r w'] eqn:Hrun.
  cbn [fst snd] in *. subst r.
  destruct (report_follows_the_encodings (platform small anywhere) source_only
              [Byte.x89; Byte.x50; Byte.x4e; Byte.x47] small w') as (_ & Hlast & _).
  - apply scenario_source.
  - reflexivity.
  - exact Hrun.
  - exact Hlast.
Defined.

(** With no writable path the files are those of the start. *)
Lemma nothing_written_without_permission :
  files (run (platform small nowhere) source_only).2 = source_only.
Proof.
  destruct (unwritable_output_changes_nothing (platform small nowhere) source_only)
    as (Hsame & _).
  - reflexivity.
  - exact Hsame.
Defined.
